(** * offset.c: the platform constant reporter of mmap-ffi

    [src/offset.c] is one translation unit whose [main] makes a single
    [printf] call.  Every argument of that call is a constant expression
    resolved by the platform headers ([<fcntl.h>], [<sys/stat.h>],
    [<sys/mman.h>]): those headers are not part of the repository, so the
    development takes them as a [Platform] value and embeds the C that is
    in the file: the format string, the order and types of the arguments,
    the pointer cast, the discarded result and the fall-through return. *)

From Stdlib Require Import ZArith NArith List Ascii String Bool Lia.
Import ListNotations.

Local Open Scope string_scope.
Local Open Scope Z_scope.

(** ** Fixed-width C integers

    A w-bit object holds a bit pattern in [0, 2^w); a signed type reads the
    pattern in two's complement. *)

Module CInt.

Definition wrap (bits v : Z) : Z := v mod 2 ^ bits.

Definition signed (bits pat : Z) : Z :=
  if pat <? 2 ^ (bits - 1) then pat else pat - 2 ^ bits.

Record ctype : Type := CType { is_signed : bool; width : Z }.

(** Two types are told apart by signedness and width, which is what
    decides how an argument is passed and read back.  ISO C is stricter: it
    leaves [%lu] undefined for an [unsigned int] of the same width (the
    [size_t] of an ILP32 ABI); the platforms print such an argument all the
    same. *)
Definition ctype_eqb (a b : ctype) : bool :=
  Bool.eqb (is_signed a) (is_signed b) && (width a =? width b).

Record cval : Type := CVal { ty : ctype; pat : Z }.

(** Conversion of a mathematical value to type [t]. *)
Definition of_Z (t : ctype) (v : Z) : cval := CVal t (wrap (width t) v).

(** The mathematical value an object of type [t] denotes. *)
Definition to_Z (x : cval) : Z :=
  if is_signed (ty x) then signed (width (ty x)) (pat x) else pat x.

End CInt.
Import CInt.

(** ** Struct layout: [offsetof] and [sizeof]

    A struct declaration is its members in declaration order, each with the
    size and alignment of its type.  Members are laid out in order, each at
    the first multiple of its alignment at or after the end of the previous
    one; the struct is padded at the end to a multiple of its own
    alignment, the largest of its members'. *)

Record member : Type := Member { m_name : string; m_size : Z; m_align : Z }.

Definition align_up (off a : Z) : Z := (off + a - 1) / a * a.

Fixpoint offsetof_from (off : Z) (ms : list member) (name : string) : option Z :=
  match ms with
  | [] => None
  | m :: rest =>
      let o := align_up off (m_align m) in
      if String.eqb (m_name m) name then Some o
      else offsetof_from (o + m_size m) rest name
  end.

Definition offsetof (ms : list member) (name : string) : option Z :=
  offsetof_from 0 ms name.

Fixpoint end_from (off : Z) (ms : list member) : Z :=
  match ms with
  | [] => off
  | m :: rest => end_from (align_up off (m_align m) + m_size m) rest
  end.

Definition alignof (ms : list member) : Z :=
  fold_right (fun m a => Z.max (m_align m) a) 1 ms.

Definition sizeof (ms : list member) : Z :=
  align_up (end_from 0 ms) (alignof ms).

(** The first member called [name], as [offsetof] resolves it. *)
Fixpoint find_member (ms : list member) (name : string) : option member :=
  match ms with
  | [] => None
  | m :: rest => if String.eqb (m_name m) name then Some m else find_member rest name
  end.

Definition member_ok (m : member) : bool := (0 <=? m_size m) && (0 <? m_align m).

Definition struct_ok (ms : list member) : bool := forallb member_ok ms.

(** ** The platform: what the five headers define

    The integer widths of the ABI, how the compiler widens a pointer that
    is converted to a longer integer (the conversion is the
    implementation's choice: some sign-extend, some zero-extend), the
    declaration of [struct stat], the eleven [int] macros and the pointer
    [MAP_FAILED] (its address bits). *)

Record Platform : Type := {
  int_bits : Z;
  long_bits : Z;
  size_bits : Z;
  ptr_bits : Z;
  ptr_sign_extends : bool;
  struct_stat : list member;
  O_RDONLY : Z;
  O_WRONLY : Z;
  O_RDWR : Z;
  PROT_READ : Z;
  PROT_WRITE : Z;
  MADV_NORMAL : Z;
  MADV_RANDOM : Z;
  MADV_SEQUENTIAL : Z;
  MADV_WILLNEED : Z;
  MADV_DONTNEED : Z;
  MAP_FAILED : Z;
  MAP_SHARED : Z
}.

(** [long long] is 64 bits wide on every ABI that ships these headers. *)
Definition llong_bits : Z := 64.

Definition int_t (p : Platform) : ctype := CType true (int_bits p).
Definition uint_t (p : Platform) : ctype := CType false (int_bits p).
Definition long_t (p : Platform) : ctype := CType true (long_bits p).
Definition ulong_t (p : Platform) : ctype := CType false (long_bits p).
Definition llong_t : ctype := CType true llong_bits.
Definition ullong_t : ctype := CType false llong_bits.
Definition size_t (p : Platform) : ctype := CType false (size_bits p).
Definition ssize_t (p : Platform) : ctype := CType true (size_bits p).

(** [(long long) ptr]: the address bits are read as a signed or as an
    unsigned integer of pointer width, as the compiler extends pointers,
    and that integer is converted to [long long]: a narrower pointer is
    sign- or zero-extended, one of the same width keeps its bits. *)
Definition cast_ptr_llong (p : Platform) (addr : Z) : cval :=
  let bits := wrap (ptr_bits p) addr in
  of_Z llong_t (if ptr_sign_extends p then signed (ptr_bits p) bits else bits).

(** ** Decimal output *)

Definition digit_char (d : N) : ascii := ascii_of_N (48 + d).

(** The digit loop of the integer conversions: emit [n mod 10] in front of
    what is already there, divide, stop when the quotient is zero.  The
    fuel bounds the iterations by the bit length of [n]. *)
Fixpoint digits_loop (fuel : nat) (n : N) (acc : string) : string :=
  let acc' := String (digit_char (n mod 10)) acc in
  match fuel with
  | O => acc'
  | S f => if (n / 10 =? 0)%N then acc' else digits_loop f (n / 10)%N acc'
  end.

Definition string_of_N (n : N) : string :=
  digits_loop (N.to_nat (N.log2 n)) n "".

Definition string_of_Z (z : Z) : string :=
  if z <? 0 then String "-" (string_of_N (Z.to_N (- z)))
  else string_of_N (Z.to_N z).

(** ** printf *)

Inductive length_modifier : Type := L_none | L_l | L_ll | L_z.
Inductive conversion : Type := Conv_d | Conv_u.
Inductive item : Type :=
| Lit (c : ascii)
| Spec (l : length_modifier) (c : conversion).

Definition conversion_of (c : ascii) : option conversion :=
  if Ascii.eqb c "d" then Some Conv_d
  else if Ascii.eqb c "u" then Some Conv_u
  else None.

(** The directives the program uses and their neighbours: ["%"], an optional
    length modifier [l], [ll] or [z], and the conversion [d] or [u].  Any
    other directive makes the format an error. *)
Fixpoint parse_format (s : string) : option (list item) :=
  match s with
  | EmptyString => Some []
  | String c rest =>
      if Ascii.eqb c "%" then
        match rest with
        | String "l" (String "l" (String k r)) =>
            match conversion_of k, parse_format r with
            | Some cv, Some its => Some (Spec L_ll cv :: its)
            | _, _ => None
            end
        | String "l" (String k r) =>
            match conversion_of k, parse_format r with
            | Some cv, Some its => Some (Spec L_l cv :: its)
            | _, _ => None
            end
        | String "z" (String k r) =>
            match conversion_of k, parse_format r with
            | Some cv, Some its => Some (Spec L_z cv :: its)
            | _, _ => None
            end
        | String k r =>
            match conversion_of k, parse_format r with
            | Some cv, Some its => Some (Spec L_none cv :: its)
            | _, _ => None
            end
        | EmptyString => None
        end
      else
        match parse_format rest with
        | Some its => Some (Lit c :: its)
        | None => None
        end
  end.

(** The type a directive reads its argument as. *)
Definition expected (p : Platform) (l : length_modifier) (c : conversion) : ctype :=
  match l, c with
  | L_none, Conv_d => int_t p
  | L_none, Conv_u => uint_t p
  | L_l, Conv_d => long_t p
  | L_l, Conv_u => ulong_t p
  | L_ll, Conv_d => llong_t
  | L_ll, Conv_u => ullong_t
  | L_z, Conv_d => ssize_t p
  | L_z, Conv_u => size_t p
  end.

(** The text of a call.  An argument that is missing, or whose signedness or
    width is not what its directive reads, leaves the call without defined
    behaviour ([None]); arguments past the last directive are ignored. *)
Fixpoint format_items (p : Platform) (its : list item) (args : list cval) : option string :=
  match its with
  | [] => Some ""
  | Lit c :: r =>
      match format_items p r args with
      | Some s => Some (String c s)
      | None => None
      end
  | Spec l c :: r =>
      match args with
      | [] => None
      | a :: args' =>
          if ctype_eqb (ty a) (expected p l c) then
            match format_items p r args' with
            | Some s => Some (string_of_Z (to_Z a) ++ s)
            | None => None
            end
          else None
      end
  end.

Definition sprintf (p : Platform) (fmt : string) (args : list cval) : option string :=
  match parse_format fmt with
  | Some its => format_items p its args
  | None => None
  end.

(** ** The process and its environment

    What a run does to the outside is the list of its output requests.
    Whether standard output takes a request is the environment's choice
    ([stdout_accepts]): a closed or full stream, a terminal that hung up or
    a pipe without reader refuses it.  What standard output is attached to
    decides the rest: a terminal is line buffered, and a refused write
    there returns an error; anything else is fully buffered, so the text
    of a short call stays in the buffer until the process exits; a refused
    write to a pipe or socket raises SIGPIPE unless the process inherited it
    ignored. *)

Inductive event : Type :=
| Write (fd : Z) (data : string) (accepted : bool).

Inductive stream_kind : Type :=
| Terminal
| Pipe (sigpipe_ignored : bool)
| Other.

Record World : Type := {
  stdout_accepts : bool;
  stdout_kind : stream_kind;
  trace : list event
}.

Definition STDOUT_FILENO : Z := 1.

Fixpoint contains_newline (s : string) : bool :=
  match s with
  | EmptyString => false
  | String c r => Ascii.eqb c "010" || contains_newline r
  end.

(** Whether the text of a call is written before the call returns: on a
    line buffered stream, when it holds a line feed. *)
Definition written_in_call (k : stream_kind) (text : string) : bool :=
  match k with
  | Terminal => contains_newline text
  | Pipe _ | Other => false
  end.

(** [printf] hands the text to standard output and returns the number of
    characters, or a negative value when a write made during the call
    failed.  Text that stays in the buffer counts as transmitted: its
    write fails, if it does, when the buffer is flushed at exit. *)
Definition printf (p : Platform) (fmt : string) (args : list cval) (w : World)
  : option (Z * World) :=
  match sprintf p fmt args with
  | Some text =>
      let ok := stdout_accepts w in
      Some (if written_in_call (stdout_kind w) text && negb ok
            then -1 else Z.of_nat (String.length text),
            {| stdout_accepts := ok;
               stdout_kind := stdout_kind w;
               trace := (trace w ++ [Write STDOUT_FILENO text ok])%list |})
  | None => None
  end.

(** ** offset.c *)

Definition dquote : string := String "034" "".
Definition newline : string := String "010" "".

(** A key of the format string, between its two escaped quotes. *)
Definition q (key : string) : string := dquote ++ key ++ dquote.

(** The string literal of the call, escapes resolved. *)
Definition format : string :=
  "{" ++ q "statOffset" ++ ": %zu, " ++ q "statSize" ++ ": %lu, "
      ++ q "O_RDONLY" ++ ": %d, " ++ q "O_WRONLY" ++ ": %d, "
      ++ q "O_RDWR" ++ ": %d, " ++ q "PROT_READ" ++ ": %d, "
      ++ q "PROT_WRITE" ++ ": %d, " ++ q "MADV_NORMAL" ++ ": %d, "
      ++ q "MADV_RANDOM" ++ ": %d, " ++ q "MADV_SEQUENTIAL" ++ ": %d, "
      ++ q "MADV_WILLNEED" ++ ": %d, " ++ q "MADV_DONTNEED" ++ ": %d, "
      ++ q "MAP_FAILED" ++ ": %lld, " ++ q "MAP_SHARED" ++ ": %d}" ++ newline.

(** The fourteen arguments, in the order of the call, given the value of
    [offsetof(struct stat, st_size)]. *)
Definition argument_list (p : Platform) (off : Z) : list cval :=
  [ of_Z (size_t p) off;
    of_Z (size_t p) (sizeof (struct_stat p));
    of_Z (int_t p) (O_RDONLY p);
    of_Z (int_t p) (O_WRONLY p);
    of_Z (int_t p) (O_RDWR p);
    of_Z (int_t p) (PROT_READ p);
    of_Z (int_t p) (PROT_WRITE p);
    of_Z (int_t p) (MADV_NORMAL p);
    of_Z (int_t p) (MADV_RANDOM p);
    of_Z (int_t p) (MADV_SEQUENTIAL p);
    of_Z (int_t p) (MADV_WILLNEED p);
    of_Z (int_t p) (MADV_DONTNEED p);
    cast_ptr_llong p (MAP_FAILED p);
    of_Z (int_t p) (MAP_SHARED p) ].

(** [offsetof] has no value when [struct stat] declares no [st_size]: the
    file does not compile there. *)
Definition arguments (p : Platform) : option (list cval) :=
  match offsetof (struct_stat p) "st_size" with
  | Some off => Some (argument_list p off)
  | None => None
  end.

(** [main]: the result of [printf] is dropped, and control reaches the
    closing brace, which for [main] returns 0. *)
Definition main (p : Platform) (argc : Z) (argv : list string) (w : World)
  : option (Z * World) :=
  match arguments p with
  | Some args =>
      match printf p format args w with
      | Some (_, w') => Some (0, w')
      | None => None
      end
  | None => None
  end.

(** ** Two platforms *)

(** glibc on x86-64 (LP64). *)
Definition linux_x86_64 : Platform := {|
  int_bits := 32; long_bits := 64; size_bits := 64; ptr_bits := 64;
  ptr_sign_extends := true;
  struct_stat :=
    [ Member "st_dev" 8 8; Member "st_ino" 8 8; Member "st_nlink" 8 8;
      Member "st_mode" 4 4; Member "st_uid" 4 4; Member "st_gid" 4 4;
      Member "__pad0" 4 4; Member "st_rdev" 8 8; Member "st_size" 8 8;
      Member "st_blksize" 8 8; Member "st_blocks" 8 8;
      Member "st_atim" 16 8; Member "st_mtim" 16 8; Member "st_ctim" 16 8;
      Member "__glibc_reserved" 24 8 ];
  O_RDONLY := 0; O_WRONLY := 1; O_RDWR := 2;
  PROT_READ := 1; PROT_WRITE := 2;
  MADV_NORMAL := 0; MADV_RANDOM := 1; MADV_SEQUENTIAL := 2;
  MADV_WILLNEED := 3; MADV_DONTNEED := 4;
  MAP_FAILED := 2 ^ 64 - 1;
  MAP_SHARED := 1
|}.

(** glibc on i386 (ILP32, 32-bit [off_t]), compiler sign-extending. *)
Definition linux_i386 : Platform := {|
  int_bits := 32; long_bits := 32; size_bits := 32; ptr_bits := 32;
  ptr_sign_extends := true;
  struct_stat :=
    [ Member "st_dev" 8 4; Member "__pad1" 2 2; Member "st_ino" 4 4;
      Member "st_mode" 4 4; Member "st_nlink" 4 4; Member "st_uid" 4 4;
      Member "st_gid" 4 4; Member "st_rdev" 8 4; Member "__pad2" 2 2;
      Member "st_size" 4 4; Member "st_blksize" 4 4; Member "st_blocks" 4 4;
      Member "st_atim" 8 4; Member "st_mtim" 8 4; Member "st_ctim" 8 4;
      Member "__glibc_reserved4" 4 4; Member "__glibc_reserved5" 4 4 ];
  O_RDONLY := 0; O_WRONLY := 1; O_RDWR := 2;
  PROT_READ := 1; PROT_WRITE := 2;
  MADV_NORMAL := 0; MADV_RANDOM := 1; MADV_SEQUENTIAL := 2;
  MADV_WILLNEED := 3; MADV_DONTNEED := 4;
  MAP_FAILED := 2 ^ 32 - 1;
  MAP_SHARED := 1
|}.

(** The same ABI under a compiler that zero-extends pointers. *)
Definition linux_i386_zext : Platform := {|
  int_bits := int_bits linux_i386; long_bits := long_bits linux_i386;
  size_bits := size_bits linux_i386; ptr_bits := ptr_bits linux_i386;
  ptr_sign_extends := false;
  struct_stat := struct_stat linux_i386;
  O_RDONLY := O_RDONLY linux_i386; O_WRONLY := O_WRONLY linux_i386;
  O_RDWR := O_RDWR linux_i386;
  PROT_READ := PROT_READ linux_i386; PROT_WRITE := PROT_WRITE linux_i386;
  MADV_NORMAL := MADV_NORMAL linux_i386; MADV_RANDOM := MADV_RANDOM linux_i386;
  MADV_SEQUENTIAL := MADV_SEQUENTIAL linux_i386;
  MADV_WILLNEED := MADV_WILLNEED linux_i386;
  MADV_DONTNEED := MADV_DONTNEED linux_i386;
  MAP_FAILED := MAP_FAILED linux_i386;
  MAP_SHARED := MAP_SHARED linux_i386
|}.

(** Standard output on a terminal; closed; a terminal that hung up; a
    pipe whose reader is gone, with SIGPIPE at its default and ignored. *)
Definition quiet : World :=
  {| stdout_accepts := true; stdout_kind := Terminal; trace := [] |}.
Definition closed_stdout : World :=
  {| stdout_accepts := false; stdout_kind := Other; trace := [] |}.
Definition hung_up_terminal : World :=
  {| stdout_accepts := false; stdout_kind := Terminal; trace := [] |}.
Definition broken_pipe : World :=
  {| stdout_accepts := false; stdout_kind := Pipe false; trace := [] |}.
Definition broken_pipe_ignored : World :=
  {| stdout_accepts := false; stdout_kind := Pipe true; trace := [] |}.

(** The x86-64 headers under an ILP64 data model: [int] of 64 bits. *)
Definition linux_x86_64_ilp64 : Platform := {|
  int_bits := 64; long_bits := 64; size_bits := 64; ptr_bits := 64;
  ptr_sign_extends := ptr_sign_extends linux_x86_64;
  struct_stat := struct_stat linux_x86_64;
  O_RDONLY := O_RDONLY linux_x86_64; O_WRONLY := O_WRONLY linux_x86_64;
  O_RDWR := O_RDWR linux_x86_64;
  PROT_READ := PROT_READ linux_x86_64; PROT_WRITE := PROT_WRITE linux_x86_64;
  MADV_NORMAL := MADV_NORMAL linux_x86_64;
  MADV_RANDOM := MADV_RANDOM linux_x86_64;
  MADV_SEQUENTIAL := MADV_SEQUENTIAL linux_x86_64;
  MADV_WILLNEED := MADV_WILLNEED linux_x86_64;
  MADV_DONTNEED := MADV_DONTNEED linux_x86_64;
  MAP_FAILED := MAP_FAILED linux_x86_64;
  MAP_SHARED := MAP_SHARED linux_x86_64
|}.

(** ** Reading the record back

    A reader for the flat records the program prints: a JSON object whose
    keys are strings without escapes and whose values are integers (an
    optional minus sign, then a single zero or a nonzero digit followed by
    digits), with JSON's white space between tokens.  It accepts nothing
    that is not a JSON object. *)

Definition is_ws (c : ascii) : bool :=
  Ascii.eqb c " " || Ascii.eqb c "009" || Ascii.eqb c "010" || Ascii.eqb c "013".

Fixpoint skip_ws (s : string) : string :=
  match s with
  | String c r => if is_ws c then skip_ws r else s
  | EmptyString => s
  end.

Definition is_digit (c : ascii) : bool :=
  (48 <=? N_of_ascii c)%N && (N_of_ascii c <=? 57)%N.

Definition digit_val (c : ascii) : N := (N_of_ascii c - 48)%N.

Fixpoint read_digits (acc : N) (s : string) : N * string :=
  match s with
  | String c r =>
      if is_digit c then read_digits (10 * acc + digit_val c)%N r else (acc, s)
  | EmptyString => (acc, s)
  end.

Definition starts_with_digit (s : string) : bool :=
  match s with
  | String c _ => is_digit c
  | EmptyString => false
  end.

(** At least one digit, and no zero in front of another digit. *)
Definition parse_nat (s : string) : option (N * string) :=
  match s with
  | String c r =>
      if is_digit c then
        if Ascii.eqb c "0" && starts_with_digit r then None
        else Some (read_digits 0 s)
      else None
  | EmptyString => None
  end.

Definition parse_int (s : string) : option (Z * string) :=
  match s with
  | String c r =>
      if Ascii.eqb c "-" then
        match parse_nat r with
        | Some (n, r') => Some (- Z.of_N n, r')
        | None => None
        end
      else
        match parse_nat s with
        | Some (n, r') => Some (Z.of_N n, r')
        | None => None
        end
  | EmptyString => None
  end.

(** The characters of a key up to its closing quote; a backslash or a
    control character ends the attempt. *)
Fixpoint read_key (s : string) : option (string * string) :=
  match s with
  | EmptyString => None
  | String c r =>
      if Ascii.eqb c "034" then Some ("", r)
      else if Ascii.eqb c "092" || (N_of_ascii c <? 32)%N then None
      else
        match read_key r with
        | Some (k, r') => Some (String c k, r')
        | None => None
        end
  end.

Definition record : Type := list (string * Z).

(** One member, then either a comma and the next member or the closing
    brace.  Every member consumes at least one character, so the length of
    the text is fuel enough. *)
Fixpoint parse_members (fuel : nat) (s : string) : option (record * string) :=
  match fuel with
  | O => None
  | S f =>
      match skip_ws s with
      | String c r =>
          if Ascii.eqb c "034" then
            match read_key r with
            | Some (k, r1) =>
                match skip_ws r1 with
                | String c1 r2 =>
                    if Ascii.eqb c1 ":" then
                      match parse_int (skip_ws r2) with
                      | Some (v, r3) =>
                          match skip_ws r3 with
                          | String c3 r4 =>
                              if Ascii.eqb c3 "," then
                                match parse_members f r4 with
                                | Some (kvs, r5) => Some ((k, v) :: kvs, r5)
                                | None => None
                                end
                              else if Ascii.eqb c3 "}" then Some ([(k, v)], r4)
                              else None
                          | EmptyString => None
                          end
                      | None => None
                      end
                    else None
                | EmptyString => None
                end
            | None => None
            end
          else None
      | EmptyString => None
      end
  end.

Definition parse_object (s : string) : option record :=
  match skip_ws s with
  | String c r =>
      if Ascii.eqb c "{" then
        match skip_ws r with
        | String c' r' =>
            if Ascii.eqb c' "}" then
              match skip_ws r' with
              | EmptyString => Some []
              | _ => None
              end
            else
              match parse_members (String.length s) r with
              | Some (kvs, rest) =>
                  match skip_ws rest with
                  | EmptyString => Some kvs
                  | _ => None
                  end
              | None => None
              end
        | EmptyString => None
        end
      else None
  | EmptyString => None
  end.

Fixpoint lookup (k : string) (r : record) : option Z :=
  match r with
  | [] => None
  | (k', v) :: rest => if String.eqb k' k then Some v else lookup k rest
  end.

(** A line: text without a line feed, followed by one line feed. *)
Fixpoint no_newline (s : string) : bool :=
  match s with
  | EmptyString => true
  | String c r => negb (Ascii.eqb c "010") && no_newline r
  end.

Definition is_line (s body : string) : Prop :=
  s = body ++ newline /\ no_newline body = true.

(** The labels of the record, in the order of the format string. *)
Definition field_names : list string :=
  [ "statOffset"; "statSize"; "O_RDONLY"; "O_WRONLY"; "O_RDWR";
    "PROT_READ"; "PROT_WRITE"; "MADV_NORMAL"; "MADV_RANDOM";
    "MADV_SEQUENTIAL"; "MADV_WILLNEED"; "MADV_DONTNEED";
    "MAP_FAILED"; "MAP_SHARED" ].

(** What a run hands to its output streams: the events it adds. *)
Definition output (p : Platform) (argc : Z) (argv : list string) (w : World)
  : option (list event) :=
  match main p argc argv w with
  | Some (_, w') => Some (skipn (List.length (trace w)) (trace w'))
  | None => None
  end.

(** A call of [main] that returns 0 and whose one effect is the request to
    write [line] to standard output. *)
Definition emits (p : Platform) (argc : Z) (argv : list string) (w : World)
  (line : string) : Prop :=
  main p argc argv w =
  Some (0, {| stdout_accepts := stdout_accepts w;
              stdout_kind := stdout_kind w;
              trace := (trace w ++ [Write STDOUT_FILENO line (stdout_accepts w)])%list |}).

(** ** The process around [main]

    The C runtime calls [main] and passes what it returns to [exit], which
    flushes standard output: what the stream still holds is written then.
    A failed write is not reported in the exit status; but a write refused
    by a pipe or socket raises SIGPIPE, and unless that signal is ignored
    the process is killed instead of exiting.  The file never changes the
    disposition it inherits. *)

Inductive outcome : Type :=
| Exited (status : Z)
| Killed (signal : Z).

Definition SIGPIPE : Z := 13.

Definition sigpipe_on_refusal (k : stream_kind) : bool :=
  match k with
  | Pipe ignored => negb ignored
  | Terminal | Other => false
  end.

Definition refused_on_stdout (e : event) : bool :=
  match e with
  | Write fd _ ok => (fd =? STDOUT_FILENO) && negb ok
  end.

Definition run_process (p : Platform) (argc : Z) (argv : list string) (w : World)
  : option (outcome * World) :=
  match main p argc argv w with
  | Some (status, w') =>
      let requests := skipn (List.length (trace w)) (trace w') in
      if existsb refused_on_stdout requests && sigpipe_on_refusal (stdout_kind w')
      then Some (Killed SIGPIPE, w')
      else Some (Exited status, w')
  | None => None
  end.

(** The texts of those events. *)
Definition event_data (e : event) : string :=
  match e with Write _ s _ => s end.

Definition output_text (p : Platform) (argc : Z) (argv : list string) (w : World)
  : option (list string) :=
  option_map (map event_data) (output p argc argv w).

(** The platforms the file compiles and runs on with defined behaviour:
    [struct stat] declares [st_size], and [size_t], the type of [sizeof],
    has the width [%lu] reads. *)
Definition supported (p : Platform) : bool :=
  match offsetof (struct_stat p) "st_size" with
  | Some _ => size_bits p =? long_bits p
  | None => false
  end.

(** The value of a digit string read from the left, and what makes one. *)
Fixpoint val_from (acc : N) (s : string) : N :=
  match s with
  | EmptyString => acc
  | String c r => val_from (10 * acc + digit_val c)%N r
  end.

Fixpoint all_digits (s : string) : bool :=
  match s with
  | EmptyString => true
  | String c r => is_digit c && all_digits r
  end.

(** A key the reader takes as it stands: no quote, no backslash, no
    control character. *)
Fixpoint plain_key (k : string) : bool :=
  match k with
  | EmptyString => true
  | String c r =>
      negb (Ascii.eqb c "034") && negb (Ascii.eqb c "092" || (N_of_ascii c <? 32)%N)
      && plain_key r
  end.

(** The text of a record in the shape of the format string: members
    [key: value] between braces, separated by a comma and a space. *)
Fixpoint members_text (r : record) : string :=
  match r with
  | [] => "}"
  | (k, v) :: rest =>
      q k ++ ": " ++ string_of_Z v ++
      match rest with
      | [] => "}"
      | _ :: _ => ", " ++ members_text rest
      end
  end.

Definition line_text (r : record) : string := "{" ++ members_text r ++ newline.

(** The record a run reports: the labels paired with the values of the
    arguments. *)
Definition reported (args : list cval) : record :=
  combine field_names (map to_Z args).

(** ** Further vocabulary for the properties of the call *)

(** Whether [v] is a value of the platform's [int]. *)
Definition in_int_range (p : Platform) (v : Z) : bool :=
  (- 2 ^ (int_bits p - 1) <=? v) && (v <? 2 ^ (int_bits p - 1)).

(** The eleven macros the call passes to [%d], in the order of the call. *)
Definition int_macros (p : Platform) : list Z :=
  [ O_RDONLY p; O_WRONLY p; O_RDWR p; PROT_READ p; PROT_WRITE p;
    MADV_NORMAL p; MADV_RANDOM p; MADV_SEQUENTIAL p; MADV_WILLNEED p;
    MADV_DONTNEED p; MAP_SHARED p ].

(** Printable ASCII: space to tilde. *)
Definition printable (c : ascii) : bool :=
  (32 <=? N_of_ascii c)%N && (N_of_ascii c <=? 126)%N.

Fixpoint all_printable (s : string) : bool :=
  match s with
  | EmptyString => true
  | String c r => printable c && all_printable r
  end.

(** * Properties *)

(** ** Strings *)

Lemma append_assoc (a b c : string) : (a ++ b) ++ c = a ++ (b ++ c).
Proof. induction a as [|x a IH]; simpl; [reflexivity | now rewrite IH]. Qed.

Lemma append_nil_r (a : string) : a ++ "" = a.
Proof. induction a as [|x a IH]; simpl; [reflexivity | now rewrite IH]. Qed.

Lemma length_append (a b : string) :
  String.length (a ++ b) = (String.length a + String.length b)%nat.
Proof. induction a as [|x a IH]; simpl; [reflexivity | now rewrite IH]. Qed.

(** ** Decimal digits *)

Lemma small_cases (d : N) :
  (d < 10)%N ->
  d = 0%N \/ d = 1%N \/ d = 2%N \/ d = 3%N \/ d = 4%N \/
  d = 5%N \/ d = 6%N \/ d = 7%N \/ d = 8%N \/ d = 9%N.
Proof. lia. Qed.

Lemma digit_char_is_digit (d : N) : (d < 10)%N -> is_digit (digit_char d) = true.
Proof.
  intros H. destruct (small_cases d H) as [E|[E|[E|[E|[E|[E|[E|[E|[E|E]]]]]]]]];
    subst d; reflexivity.
Qed.

Lemma digit_val_char (d : N) : (d < 10)%N -> digit_val (digit_char d) = d.
Proof.
  intros H. destruct (small_cases d H) as [E|[E|[E|[E|[E|[E|[E|[E|[E|E]]]]]]]]];
    subst d; reflexivity.
Qed.

Lemma digit_char_zero (d : N) :
  (d < 10)%N -> Ascii.eqb (digit_char d) "0" = true -> d = 0%N.
Proof.
  intros H. destruct (small_cases d H) as [E|[E|[E|[E|[E|[E|[E|[E|[E|E]]]]]]]]];
    subst d; simpl; intros E; try reflexivity; discriminate E.
Qed.

Lemma val_from_append (a : N) (s t : string) :
  val_from a (s ++ t) = val_from (val_from a s) t.
Proof. revert a. induction s as [|c s IH]; intros a; simpl; [reflexivity | apply IH]. Qed.

Lemma all_digits_append (s t : string) :
  all_digits (s ++ t) = all_digits s && all_digits t.
Proof.
  induction s as [|c s IH]; simpl; [reflexivity|].
  rewrite IH. now rewrite andb_assoc.
Qed.

Lemma read_digits_append (s rest : string) (a : N) :
  all_digits s = true ->
  starts_with_digit rest = false ->
  read_digits a (s ++ rest) = (val_from a s, rest).
Proof.
  revert a. induction s as [|c s IH]; intros a Hs Hr; simpl.
  - destruct rest as [|c r]; [reflexivity|].
    simpl in Hr. simpl. now rewrite Hr.
  - simpl in Hs. apply andb_true_iff in Hs as [Hc Hs].
    rewrite Hc. now apply IH.
Qed.

(** The shape of what the digit loop emits, given fuel for the bit length
    of [n]: a nonempty run of digits whose value is [n], placed in front of
    the accumulator, with no zero in front unless [n] is zero. *)
Lemma digits_loop_spec (f : nat) :
  forall n : N,
    (N.to_nat (N.log2 n) <= f)%nat ->
    exists (c : ascii) (ds : string),
      (forall acc, digits_loop f n acc = String c ds ++ acc) /\
      all_digits (String c ds) = true /\
      val_from 0 (String c ds) = n /\
      (Ascii.eqb c "0" = true -> n = 0%N /\ ds = "").
Proof.
  induction f as [|f IH]; intros n Hf.
  - assert (Hn : (n < 2)%N).
    { destruct (N.ltb_spec n 2) as [|Hge]; [assumption|].
      assert (1 <= N.log2 n)%N by (change 1%N with (N.log2 2); now apply N.log2_le_mono).
      lia. }
    assert (Hm : (n mod 10 = n)%N) by (apply N.mod_small; lia).
    exists (digit_char n), "". simpl. rewrite Hm.
    repeat split.
    + rewrite digit_char_is_digit by lia. reflexivity.
    + rewrite digit_val_char by lia. lia.
    + apply digit_char_zero; [lia | assumption].
  - cbn [digits_loop]. destruct (N.eqb_spec (n / 10) 0) as [Hq|Hq].
    + assert (Hn : (n < 10)%N).
      { destruct (N.ltb_spec n 10) as [|Hge]; [assumption|].
        assert (1 <= n / 10)%N by (apply N.div_le_lower_bound; lia). lia. }
      assert (Hm : (n mod 10 = n)%N) by (apply N.mod_small; lia).
      exists (digit_char n), "". rewrite Hm. simpl.
      repeat split.
      * rewrite digit_char_is_digit by lia. reflexivity.
      * rewrite digit_val_char by lia. lia.
      * apply digit_char_zero; [lia | assumption].
    + assert (Hlog : (N.to_nat (N.log2 (n / 10)) <= f)%nat).
      { assert (Hd : (2 * (n / 10) <= n)%N).
        { pose proof (N.Div0.mul_div_le n 10). lia. }
        assert (Hl : (N.log2 (2 * (n / 10)) <= N.log2 n)%N) by now apply N.log2_le_mono.
        rewrite N.log2_double in Hl by (apply N.neq_0_lt_0; exact Hq).
        revert Hf Hl. generalize (N.log2 n), (N.log2 (n / 10)). lia. }
      destruct (IH (n / 10)%N Hlog) as (c & ds & Hshape & Hall & Hval & Hzero).
      assert (Hlt : (n mod 10 < 10)%N) by (apply N.mod_lt; lia).
      exists c, (ds ++ String (digit_char (n mod 10)) "").
      repeat split.
      * intros acc. rewrite Hshape. simpl. now rewrite append_assoc.
      * change (String c (ds ++ String (digit_char (n mod 10)) ""))
          with (String c ds ++ String (digit_char (n mod 10)) "").
        rewrite all_digits_append, Hall. simpl.
        rewrite digit_char_is_digit by assumption. reflexivity.
      * change (String c (ds ++ String (digit_char (n mod 10)) ""))
          with (String c ds ++ String (digit_char (n mod 10)) "").
        rewrite val_from_append, Hval. cbn [val_from].
        rewrite digit_val_char by assumption.
        symmetry. apply N.div_mod. discriminate.
      * destruct (Hzero H) as [Hz _]. contradiction.
      * destruct (Hzero H) as [Hz _]. contradiction.
Qed.

Lemma string_of_N_spec (n : N) :
  exists (c : ascii) (ds : string),
    string_of_N n = String c ds /\
    all_digits (String c ds) = true /\
    val_from 0 (String c ds) = n /\
    (Ascii.eqb c "0" = true -> n = 0%N /\ ds = "").
Proof.
  destruct (digits_loop_spec (N.to_nat (N.log2 n)) n (le_n _))
    as (c & ds & Hshape & Hall & Hval & Hzero).
  exists c, ds. repeat split; try assumption; try (apply Hzero; assumption).
  unfold string_of_N. rewrite Hshape. simpl. now rewrite append_nil_r.
Qed.

Lemma parse_nat_string_of_N (n : N) (rest : string) :
  starts_with_digit rest = false ->
  parse_nat (string_of_N n ++ rest) = Some (n, rest).
Proof.
  intros Hr.
  destruct (string_of_N_spec n) as (c & ds & Hs & Hall & Hval & Hzero).
  rewrite Hs. unfold parse_nat.
  change (String c ds ++ rest) with (String c (ds ++ rest)).
  cbv beta iota.
  assert (Hc : is_digit c = true).
  { simpl in Hall. now apply andb_true_iff in Hall as [Hc _]. }
  rewrite Hc.
  assert (Hz : Ascii.eqb c "0" && starts_with_digit (ds ++ rest) = false).
  { destruct (Ascii.eqb c "0") eqn:E; [|reflexivity].
    destruct (Hzero eq_refl) as [_ Hds]. subst ds. simpl. exact Hr. }
  rewrite Hz.
  change (String c (ds ++ rest)) with (String c ds ++ rest).
  rewrite read_digits_append by assumption.
  now rewrite Hval.
Qed.

Lemma is_digit_not_minus (c : ascii) : is_digit c = true -> Ascii.eqb c "-" = false.
Proof.
  intros H. destruct (Ascii.eqb_spec c "-") as [E|E]; [subst c; discriminate H | reflexivity].
Qed.

Lemma is_digit_not_ws (c : ascii) : is_digit c = true -> is_ws c = false.
Proof.
  intros H. unfold is_ws.
  destruct (Ascii.eqb_spec c " ") as [E|_]; [subst c; discriminate H|].
  destruct (Ascii.eqb_spec c "009") as [E|_]; [subst c; discriminate H|].
  destruct (Ascii.eqb_spec c "010") as [E|_]; [subst c; discriminate H|].
  destruct (Ascii.eqb_spec c "013") as [E|_]; [subst c; discriminate H|].
  reflexivity.
Qed.

(** Reading back what [%d] and its relatives print. *)
Lemma parse_int_string_of_Z (v : Z) (rest : string) :
  starts_with_digit rest = false ->
  parse_int (string_of_Z v ++ rest) = Some (v, rest).
Proof.
  intros Hr. unfold string_of_Z.
  destruct (Z.ltb_spec v 0) as [Hneg|Hpos].
  - change (String "-" (string_of_N (Z.to_N (- v))) ++ rest)
      with (String "-" (string_of_N (Z.to_N (- v)) ++ rest)).
    unfold parse_int. change (Ascii.eqb "-" "-") with true. cbv iota.
    rewrite parse_nat_string_of_N by assumption.
    f_equal. f_equal. lia.
  - pose proof (parse_nat_string_of_N (Z.to_N v) rest Hr) as Hp.
    destruct (string_of_N_spec (Z.to_N v)) as (c & ds & Hs & Hall & _ & _).
    rewrite Hs in *.
    change (String c ds ++ rest) with (String c (ds ++ rest)) in *.
    unfold parse_int.
    simpl in Hall. apply andb_true_iff in Hall as [Hc _].
    rewrite (is_digit_not_minus c Hc), Hp.
    f_equal. f_equal. lia.
Qed.

Lemma skip_ws_string_of_Z (v : Z) (rest : string) :
  skip_ws (string_of_Z v ++ rest) = string_of_Z v ++ rest.
Proof.
  unfold string_of_Z. destruct (v <? 0); [reflexivity|].
  destruct (string_of_N_spec (Z.to_N v)) as (c & ds & Hs & Hall & _ & _).
  rewrite Hs. simpl in Hall. apply andb_true_iff in Hall as [Hc _].
  simpl. now rewrite (is_digit_not_ws c Hc).
Qed.

Lemma read_key_plain (k rest : string) :
  plain_key k = true -> read_key (k ++ String "034" rest) = Some (k, rest).
Proof.
  induction k as [|c k IH]; intros H; [reflexivity|].
  simpl in H. apply andb_true_iff in H as [H Hk].
  apply andb_true_iff in H as [Hq Hb].
  apply negb_true_iff in Hq. apply negb_true_iff in Hb.
  change (String c k ++ String "034" rest) with (String c (k ++ String "034" rest)).
  cbn [read_key]. rewrite Hq, Hb. now rewrite IH.
Qed.

(** The text of one member, up to the separator that follows its value. *)
Lemma member_prefix (f : nat) (k : string) (v : Z) (c3 : ascii) (r4 : string) :
  plain_key k = true ->
  is_digit c3 = false -> is_ws c3 = false ->
  parse_members (S f) (q k ++ ": " ++ string_of_Z v ++ String c3 r4) =
  if Ascii.eqb c3 "," then
    match parse_members f r4 with
    | Some (kvs, r5) => Some ((k, v) :: kvs, r5)
    | None => None
    end
  else if Ascii.eqb c3 "}" then Some ([(k, v)], r4)
  else None.
Proof.
  intros Hk Hd Hw. unfold q, dquote.
  rewrite !append_assoc.
  change (String "034" "" ++ k ++ String "034" "" ++ ": " ++ string_of_Z v ++ String c3 r4)
    with (String "034" (k ++ String "034" (String ":" (String " " (string_of_Z v ++ String c3 r4))))).
  cbn [parse_members].
  change (skip_ws (String "034" ?x)) with (String "034" x).
  cbv beta iota.
  change (Ascii.eqb "034" "034") with true. cbv iota.
  rewrite read_key_plain by assumption.
  cbn [skip_ws].
  change (is_ws ":") with false. change (is_ws " ") with true. cbv iota.
  change (Ascii.eqb ":" ":") with true. cbv iota.
  cbn [skip_ws]. change (is_ws " ") with true. cbv iota.
  rewrite skip_ws_string_of_Z.
  rewrite parse_int_string_of_Z by (simpl; exact Hd).
  cbn [skip_ws]. rewrite Hw. reflexivity.
Qed.

Lemma parse_members_ws (f : nat) (s : string) :
  parse_members f (String " " s) = parse_members f s.
Proof. destruct f; reflexivity. Qed.

Lemma members_text_length (r : record) (tail : string) :
  (List.length r <= String.length (members_text r ++ tail))%nat.
Proof.
  induction r as [|[k v] r IH]; [apply Nat.le_0_l|].
  cbn [members_text List.length].
  destruct r as [|kv r].
  - unfold q, dquote. rewrite !append_assoc. simpl. lia.
  - unfold q, dquote. rewrite !append_assoc.
    change (String "034" "" ++ ?x) with (String "034" x).
    cbn [String.length]. rewrite !length_append.
    rewrite !length_append in IH. cbn [String.length] in *. lia.
Qed.

(** The reader inverts the writer: a nonempty record with plain keys, put
    in the shape of the format string, reads back as itself. *)
Lemma parse_members_text (r : record) :
  forall (f : nat) (tail : string),
    r <> [] ->
    forallb plain_key (map fst r) = true ->
    (List.length r <= f)%nat ->
    parse_members f (members_text r ++ tail) = Some (r, tail).
Proof.
  induction r as [|[k v] r IH]; intros f tail Hne Hkeys Hf; [contradiction|].
  destruct f as [|f]; [simpl in Hf; lia|].
  simpl in Hkeys. apply andb_true_iff in Hkeys as [Hk Hkeys].
  cbn [members_text]. destruct r as [|kv r].
  - rewrite !append_assoc.
    change ("}" ++ tail) with (String "}" tail).
    rewrite member_prefix by (assumption || reflexivity). reflexivity.
  - rewrite !append_assoc.
    change (", " ++ members_text (kv :: r) ++ tail)
      with (String "," (String " " (members_text (kv :: r) ++ tail))).
    rewrite member_prefix by (assumption || reflexivity).
    change (Ascii.eqb "," ",") with true. cbv iota.
    rewrite parse_members_ws.
    rewrite IH; [reflexivity | discriminate | assumption | simpl in Hf |- *; lia].
Qed.

Lemma parse_object_text (r : record) (tail : string) :
  r <> [] ->
  forallb plain_key (map fst r) = true ->
  skip_ws tail = "" ->
  parse_object ("{" ++ members_text r ++ tail) = Some r.
Proof.
  intros Hne Hkeys Htail.
  change ("{" ++ members_text r ++ tail) with (String "{" (members_text r ++ tail)).
  unfold parse_object.
  change (skip_ws (String "{" ?x)) with (String "{" x).
  cbv beta iota. change (Ascii.eqb "{" "{") with true. cbv iota.
  destruct r as [|[k v] r]; [contradiction|].
  assert (Hhead : exists t, members_text ((k, v) :: r) ++ tail = String "034" t).
  { cbn [members_text]. unfold q, dquote. rewrite !append_assoc. eexists. reflexivity. }
  destruct Hhead as [t Ht].
  pose proof (parse_members_text ((k, v) :: r)
                (String.length (String "{" (members_text ((k, v) :: r) ++ tail)))
                tail Hne Hkeys) as Hp.
  rewrite Ht in *.
  change (skip_ws (String "034" t)) with (String "034" t).
  cbv beta iota. change (Ascii.eqb "034" "}") with false. cbv iota.
  rewrite Hp; [now rewrite Htail|].
  rewrite <- Ht. cbn [String.length].
  pose proof (members_text_length ((k, v) :: r) tail). lia.
Qed.

(** ** One line *)

Lemma no_newline_append (a b : string) :
  no_newline (a ++ b) = no_newline a && no_newline b.
Proof.
  induction a as [|c a IH]; simpl; [reflexivity|].
  rewrite IH. now rewrite andb_assoc.
Qed.

Lemma all_digits_no_newline (s : string) : all_digits s = true -> no_newline s = true.
Proof.
  induction s as [|c s IH]; intros H; [reflexivity|].
  simpl in H. apply andb_true_iff in H as [Hc Hs]. simpl.
  rewrite (IH Hs), andb_true_r.
  destruct (Ascii.eqb_spec c "010") as [E|_]; [subst c; discriminate Hc | reflexivity].
Qed.

Lemma string_of_Z_no_newline (v : Z) : no_newline (string_of_Z v) = true.
Proof.
  unfold string_of_Z.
  destruct (v <? 0).
  - destruct (string_of_N_spec (Z.to_N (- v))) as (c & ds & Hs & Hall & _).
    rewrite Hs. change (no_newline (String "-" (String c ds)))
      with (no_newline (String c ds)). now apply all_digits_no_newline.
  - destruct (string_of_N_spec (Z.to_N v)) as (c & ds & Hs & Hall & _).
    rewrite Hs. now apply all_digits_no_newline.
Qed.

Lemma plain_key_no_newline (k : string) : plain_key k = true -> no_newline k = true.
Proof.
  induction k as [|c k IH]; intros H; [reflexivity|].
  simpl in H. apply andb_true_iff in H as [H Hk].
  apply andb_true_iff in H as [_ Hb]. apply negb_true_iff in Hb.
  apply orb_false_iff in Hb as [_ Hc].
  simpl. rewrite (IH Hk), andb_true_r.
  destruct (Ascii.eqb_spec c "010") as [E|_]; [subst c; discriminate Hc | reflexivity].
Qed.

Lemma members_text_no_newline (r : record) :
  forallb plain_key (map fst r) = true -> no_newline (members_text r) = true.
Proof.
  induction r as [|[k v] r IH]; intros H; [reflexivity|].
  simpl in H. apply andb_true_iff in H as [Hk Hr].
  cbn [members_text]. unfold q, dquote.
  rewrite !no_newline_append.
  rewrite (plain_key_no_newline k Hk), string_of_Z_no_newline.
  destruct r as [|kv r]; [reflexivity|].
  rewrite no_newline_append, (IH Hr). reflexivity.
Qed.

Lemma line_text_is_line (r : record) :
  forallb plain_key (map fst r) = true ->
  is_line (line_text r) ("{" ++ members_text r).
Proof.
  intros H. split.
  - unfold line_text. now rewrite append_assoc.
  - change (no_newline ("{" ++ members_text r)) with (no_newline (members_text r)).
    now apply members_text_no_newline.
Qed.

(** ** The call in [main] *)

Lemma ctype_eqb_refl (t : ctype) : ctype_eqb t t = true.
Proof.
  unfold ctype_eqb. rewrite Z.eqb_refl. now destruct (is_signed t).
Qed.

Lemma supported_inv (p : Platform) :
  supported p = true ->
  exists off, offsetof (struct_stat p) "st_size" = Some off /\ size_bits p = long_bits p.
Proof.
  unfold supported. destruct (offsetof (struct_stat p) "st_size") as [off|]; [|discriminate].
  intros H. exists off. split; [reflexivity | now apply Z.eqb_eq].
Qed.


(** Every directive of the format finds an argument of its type, and the
    text is the reported record in the shape of the format. *)
Lemma sprintf_format (p : Platform) (args : list cval) :
  supported p = true ->
  arguments p = Some args ->
  sprintf p format args = Some (line_text (reported args)).
Proof.
  intros H Hargs. destruct (supported_inv p H) as (off & Hoff & Hw).
  unfold arguments in Hargs. rewrite Hoff in Hargs. injection Hargs as <-.
  unfold sprintf, argument_list.
  let its := eval vm_compute in (parse_format format) in
  change (parse_format format) with its.
  cbv beta iota.
  cbn [format_items ty of_Z expected cast_ptr_llong].
  assert (Hlu : ctype_eqb (size_t p) (ulong_t p) = true).
  { unfold ctype_eqb, size_t, ulong_t. simpl. now apply Z.eqb_eq. }
  rewrite Hlu, !ctype_eqb_refl.
  cbv beta iota.
  cbn [line_text reported combine map field_names members_text q dquote newline append].
  repeat (rewrite append_assoc; cbn [append]).
  reflexivity.
Qed.

(** ** What a run is *)

Lemma reported_keys (p : Platform) (args : list cval) :
  arguments p = Some args -> map fst (reported args) = field_names.
Proof.
  unfold arguments. destruct (offsetof (struct_stat p) "st_size"); [|discriminate].
  intros H. injection H as <-. reflexivity.
Qed.

Lemma reported_reads (p : Platform) (args : list cval) :
  arguments p = Some args ->
  parse_object ("{" ++ members_text (reported args)) = Some (reported args) /\
  is_line (line_text (reported args)) ("{" ++ members_text (reported args)).
Proof.
  intros H. pose proof (reported_keys p args H) as Hk. split.
  - rewrite <- (append_nil_r (members_text (reported args))).
    apply parse_object_text; [| rewrite Hk; reflexivity | reflexivity].
    intros E. rewrite E in Hk. discriminate Hk.
  - apply line_text_is_line. rewrite Hk. reflexivity.
Qed.

Lemma main_run (p : Platform) (args : list cval) (argc : Z) (argv : list string) (w : World) :
  supported p = true ->
  arguments p = Some args ->
  emits p argc argv w (line_text (reported args)).
Proof.
  intros H Hargs. unfold emits, main, printf.
  rewrite Hargs, (sprintf_format p args H Hargs). reflexivity.
Qed.

Lemma emits_output (p : Platform) (argc : Z) (argv : list string) (w : World) (line : string) :
  emits p argc argv w line ->
  output p argc argv w = Some [Write STDOUT_FILENO line (stdout_accepts w)].
Proof.
  unfold emits, output. intros ->. cbn [trace].
  rewrite skipn_app, skipn_all, Nat.sub_diag. reflexivity.
Qed.

(** ** Integer conversions *)

Lemma pow2_half (b : Z) : 0 < b -> 2 ^ b = 2 * 2 ^ (b - 1).
Proof.
  intros H. replace b with (Z.succ (b - 1)) at 1 by lia.
  rewrite Z.pow_succ_r by lia. reflexivity.
Qed.

Lemma unsigned_of_Z (t : ctype) (v : Z) :
  is_signed t = false -> 0 <= v < 2 ^ width t -> to_Z (of_Z t v) = v.
Proof.
  intros Ht Hv. unfold to_Z, of_Z. cbn [ty pat]. rewrite Ht.
  unfold wrap. now apply Z.mod_small.
Qed.

Lemma signed_wrap (b v : Z) :
  0 < b -> - 2 ^ (b - 1) <= v < 2 ^ (b - 1) -> signed b (wrap b v) = v.
Proof.
  intros Hb Hv. unfold signed, wrap.
  pose proof (pow2_half b Hb) as Hh.
  assert (Hp : 0 < 2 ^ (b - 1)) by (apply Z.pow_pos_nonneg; lia).
  destruct (Z.ltb_spec v 0) as [Hneg|Hpos].
  - replace (v mod 2 ^ b) with (v + 2 ^ b).
    + destruct (Z.ltb_spec (v + 2 ^ b) (2 ^ (b - 1))); lia.
    + rewrite <- (Z.mod_small (v + 2 ^ b) (2 ^ b)) by lia.
      replace (v + 2 ^ b) with (v + 1 * 2 ^ b) by lia.
      apply Z_mod_plus_full.
  - rewrite Z.mod_small by lia.
    destruct (Z.ltb_spec v (2 ^ (b - 1))); lia.
Qed.

Lemma signed_of_Z (t : ctype) (v : Z) :
  is_signed t = true -> 0 < width t ->
  - 2 ^ (width t - 1) <= v < 2 ^ (width t - 1) ->
  to_Z (of_Z t v) = v.
Proof.
  intros Ht Hw Hv. unfold to_Z, of_Z. cbn [ty pat]. rewrite Ht.
  now apply signed_wrap.
Qed.

Lemma signed_range (b x : Z) :
  0 < b -> 0 <= x < 2 ^ b -> - 2 ^ (b - 1) <= signed b x < 2 ^ (b - 1).
Proof.
  intros Hb Hx. unfold signed. pose proof (pow2_half b Hb).
  destruct (Z.ltb_spec x (2 ^ (b - 1))); lia.
Qed.

Lemma signed_mod (b x : Z) :
  0 < b -> 0 <= x < 2 ^ b -> signed b x mod 2 ^ b = x.
Proof.
  intros Hb Hx. unfold signed.
  destruct (Z.ltb_spec x (2 ^ (b - 1))).
  - apply Z.mod_small. assumption.
  - replace (x - 2 ^ b) with (x + (-1) * 2 ^ b) by lia.
    rewrite Z_mod_plus_full. now apply Z.mod_small.
Qed.

Lemma llong_of_Z_mod (y : Z) :
  to_Z (of_Z llong_t y) mod 2 ^ llong_bits = y mod 2 ^ llong_bits.
Proof.
  unfold to_Z, of_Z. cbn [ty pat is_signed width llong_t].
  apply signed_mod; [reflexivity|].
  unfold wrap. apply Z.mod_pos_bound. reflexivity.
Qed.

Lemma mod_pow2_narrow (a b : Z) :
  0 < b <= llong_bits -> (a mod 2 ^ llong_bits) mod 2 ^ b = a mod 2 ^ b.
Proof.
  intros Hb. apply Z.mod_mod_divide.
  exists (2 ^ (llong_bits - b)).
  rewrite <- Z.pow_add_r by lia. f_equal. lia.
Qed.

(** The low pointer-width bits of [(long long) ptr] are the address. *)
Lemma cast_ptr_llong_low (p : Platform) (addr : Z) :
  0 < ptr_bits p <= llong_bits ->
  to_Z (cast_ptr_llong p addr) mod 2 ^ ptr_bits p = wrap (ptr_bits p) addr.
Proof.
  intros Hb. unfold cast_ptr_llong. cbv zeta.
  rewrite <- (mod_pow2_narrow (to_Z _) _ Hb), llong_of_Z_mod, (mod_pow2_narrow _ _ Hb).
  assert (Hr : 0 <= wrap (ptr_bits p) addr < 2 ^ ptr_bits p).
  { unfold wrap. apply Z.mod_pos_bound. apply Z.pow_pos_nonneg; lia. }
  destruct (ptr_sign_extends p).
  - apply signed_mod; [lia | exact Hr].
  - apply Z.mod_small. exact Hr.
Qed.

(** The all-ones pointer becomes -1 when it is sign-extended or already as
    wide as [long long]. *)
Lemma cast_ptr_llong_all_ones (p : Platform) :
  0 < ptr_bits p <= llong_bits ->
  ptr_bits p = llong_bits \/ ptr_sign_extends p = true ->
  to_Z (cast_ptr_llong p (2 ^ ptr_bits p - 1)) = -1.
Proof.
  intros Hb Hext. unfold cast_ptr_llong. cbv zeta.
  assert (Hp : 0 < 2 ^ (ptr_bits p - 1)) by (apply Z.pow_pos_nonneg; lia).
  pose proof (pow2_half (ptr_bits p) (proj1 Hb)) as Hh.
  assert (Hw : wrap (ptr_bits p) (2 ^ ptr_bits p - 1) = 2 ^ ptr_bits p - 1)
    by (unfold wrap; apply Z.mod_small; lia).
  assert (Hs : signed (ptr_bits p) (2 ^ ptr_bits p - 1) = -1).
  { unfold signed.
    destruct (Z.ltb_spec (2 ^ ptr_bits p - 1) (2 ^ (ptr_bits p - 1))); lia. }
  rewrite Hw.
  destruct (ptr_sign_extends p) eqn:Hx.
  - rewrite Hs. reflexivity.
  - destruct Hext as [Hext|Hext]; [|discriminate Hext].
    rewrite Hext. reflexivity.
Qed.

Lemma llong_range (v : Z) :
  - 2 ^ 63 <= to_Z (of_Z llong_t v) < 2 ^ 63.
Proof.
  unfold to_Z, of_Z. cbn [ty pat is_signed width llong_t]. unfold llong_bits.
  change (2 ^ 63) with (2 ^ (64 - 1)).
  apply signed_range; [lia|].
  unfold wrap. apply Z.mod_pos_bound. reflexivity.
Qed.

(** ** Layout *)

Lemma align_up_ge (off a : Z) : 0 < a -> off <= align_up off a.
Proof.
  intros Ha. unfold align_up.
  pose proof (Z.div_mod (off + a - 1) a ltac:(lia)) as Hd.
  pose proof (Z.mod_pos_bound (off + a - 1) a Ha) as Hm.
  revert Hd Hm. generalize ((off + a - 1) / a), ((off + a - 1) mod a).
  intros qt rm Hd Hm. nia.
Qed.

Lemma end_from_ge (ms : list member) :
  struct_ok ms = true -> forall off, off <= end_from off ms.
Proof.
  induction ms as [|m ms IH]; intros Hok off; simpl; [lia|].
  simpl in Hok. apply andb_true_iff in Hok as [Hm Hms].
  unfold member_ok in Hm. apply andb_true_iff in Hm as [Hs Ha].
  apply Z.leb_le in Hs. apply Z.ltb_lt in Ha.
  pose proof (align_up_ge off (m_align m) Ha).
  pose proof (IH Hms (align_up off (m_align m) + m_size m)). lia.
Qed.

Lemma alignof_pos (ms : list member) : 0 < alignof ms.
Proof.
  unfold alignof. induction ms as [|m ms IH]; simpl; lia.
Qed.

Lemma offsetof_from_find (ms : list member) (name : string) :
  forall off o,
    offsetof_from off ms name = Some o -> exists m, find_member ms name = Some m.
Proof.
  induction ms as [|m ms IH]; intros off o H; simpl in *; [discriminate|].
  destruct (String.eqb (m_name m) name); [now exists m|].
  eapply IH; eassumption.
Qed.

(** A member lies between the start of the layout and its end. *)
Lemma offsetof_from_bound (ms : list member) (name : string) :
  struct_ok ms = true ->
  forall off o m,
    offsetof_from off ms name = Some o ->
    find_member ms name = Some m ->
    off <= o /\ o + m_size m <= end_from off ms.
Proof.
  induction ms as [|x ms IH]; intros Hok off o m Ho Hm; simpl in *; [discriminate|].
  apply andb_true_iff in Hok as [Hx Hms].
  pose proof Hx as Hx'. unfold member_ok in Hx'. apply andb_true_iff in Hx' as [Hs Ha].
  apply Z.leb_le in Hs. apply Z.ltb_lt in Ha.
  pose proof (align_up_ge off (m_align x) Ha) as Hal.
  destruct (String.eqb (m_name x) name).
  - injection Ho as <-. injection Hm as <-.
    pose proof (end_from_ge ms Hms (align_up off (m_align x) + m_size x)). lia.
  - destruct (IH Hms _ _ _ Ho Hm). lia.
Qed.

Lemma offsetof_within (ms : list member) (name : string) (o : Z) (m : member) :
  struct_ok ms = true ->
  offsetof ms name = Some o ->
  find_member ms name = Some m ->
  0 <= o /\ o + m_size m <= sizeof ms.
Proof.
  intros Hok Ho Hm.
  destruct (offsetof_from_bound ms name Hok 0 o m Ho Hm) as [H0 H1].
  pose proof (align_up_ge (end_from 0 ms) (alignof ms) (alignof_pos ms)).
  unfold sizeof. lia.
Qed.

Lemma find_member_size (ms : list member) (name : string) (m : member) :
  struct_ok ms = true -> find_member ms name = Some m -> 0 <= m_size m.
Proof.
  induction ms as [|x ms IH]; intros Hok Hm; simpl in *; [discriminate|].
  apply andb_true_iff in Hok as [Hx Hms].
  destruct (String.eqb (m_name x) name).
  - injection Hm as <-. unfold member_ok in Hx.
    apply andb_true_iff in Hx as [Hs _]. now apply Z.leb_le.
  - now apply IH.
Qed.

(** The whole run on a supported platform: status 0, one request on
    standard output, whose text is one line that reads back as the
    reported record. *)
Lemma run_reads (p : Platform) (off : Z) (argc : Z) (argv : list string) (w : World) :
  supported p = true ->
  offsetof (struct_stat p) "st_size" = Some off ->
  let r := reported (argument_list p off) in
  emits p argc argv w (line_text r) /\
  is_line (line_text r) ("{" ++ members_text r) /\
  parse_object ("{" ++ members_text r) = Some r.
Proof.
  intros H Hoff r.
  assert (Hargs : arguments p = Some (argument_list p off))
    by (unfold arguments; now rewrite Hoff).
  destruct (reported_reads p _ Hargs) as [Hread Hline].
  split; [now apply main_run | split; assumption].
Qed.

Lemma field_names_NoDup : NoDup field_names.
Proof.
  change field_names with (nodup string_dec field_names).
  apply NoDup_nodup.
Qed.

(** ** The runs on the three platforms *)

Example linux_x86_64_run :
  output_text linux_x86_64 1 ["offset"] quiet =
  Some [ line_text
           [ ("statOffset", 48); ("statSize", 144);
             ("O_RDONLY", 0); ("O_WRONLY", 1); ("O_RDWR", 2);
             ("PROT_READ", 1); ("PROT_WRITE", 2);
             ("MADV_NORMAL", 0); ("MADV_RANDOM", 1); ("MADV_SEQUENTIAL", 2);
             ("MADV_WILLNEED", 3); ("MADV_DONTNEED", 4);
             ("MAP_FAILED", -1); ("MAP_SHARED", 1) ] ].
Proof. vm_compute. reflexivity. Qed.

Example linux_i386_run :
  output_text linux_i386 2 ["offset"; "--help"] closed_stdout =
  Some [ line_text
           [ ("statOffset", 44); ("statSize", 88);
             ("O_RDONLY", 0); ("O_WRONLY", 1); ("O_RDWR", 2);
             ("PROT_READ", 1); ("PROT_WRITE", 2);
             ("MADV_NORMAL", 0); ("MADV_RANDOM", 1); ("MADV_SEQUENTIAL", 2);
             ("MADV_WILLNEED", 3); ("MADV_DONTNEED", 4);
             ("MAP_FAILED", -1); ("MAP_SHARED", 1) ] ].
Proof. vm_compute. reflexivity. Qed.

(** Where a 32-bit pointer is zero-extended, the all-ones sentinel is
    printed as 2^32 - 1: the low 32 bits are the sentinel's, the value is
    not -1. *)
Example linux_i386_zext_run :
  option_map (map (fun s => option_map (lookup "MAP_FAILED") (parse_object s)))
             (output_text linux_i386_zext 1 ["offset"] quiet)
  = Some [Some (Some 4294967295)].
Proof. vm_compute. reflexivity. Qed.

(** The reader is strict about what it takes for a record. *)
Example parse_object_rejects :
  parse_object "{" = None /\
  parse_object ("{" ++ q "a" ++ ": 007}") = None /\
  parse_object ("{" ++ q "a" ++ ": 1,}") = None /\
  parse_object ("{" ++ q "a" ++ ": 1} x") = None /\
  parse_object ("{" ++ q "a" ++ ": -12, " ++ q "b" ++ ":0 }") = Some [("a", -12); ("b", 0)].
Proof. repeat split; reflexivity. Qed.

(** * The claims *)

(** C1: every run on a supported platform hands standard output exactly one
    request, whose text is one line; the line holds a key/value record with
    exactly the fourteen labels of section 4.1, none twice, each value a
    decimal integer, and nothing else. *)
Theorem main_prints_one_record_line
  (p : Platform) (argc : Z) (argv : list string) (w : World) :
  supported p = true ->
  exists line body r,
    output p argc argv w = Some [Write STDOUT_FILENO line (stdout_accepts w)] /\
    is_line line body /\
    parse_object body = Some r /\
    line = line_text r /\
    List.length r = 14%nat /\
    NoDup (map fst r) /\
    (forall k, In k (map fst r) <-> In k field_names).
Proof.
  intros H. destruct (supported_inv p H) as (off & Hoff & _).
  destruct (run_reads p off argc argv w H Hoff) as (Hrun & Hline & Hread).
  exists (line_text (reported (argument_list p off))),
         ("{" ++ members_text (reported (argument_list p off))),
         (reported (argument_list p off)).
  split; [now apply emits_output|].
  split; [exact Hline|].
  split; [exact Hread|].
  split; [reflexivity|].
  split; [reflexivity|].
  split; [exact field_names_NoDup|].
  intros k. split; intros Hk; exact Hk.
Qed.

Lemma main_prints_one_record_line_witness :
  supported linux_x86_64 = true /\
  exists line body r,
    output linux_x86_64 1 ["offset"] quiet
    = Some [Write STDOUT_FILENO line (stdout_accepts quiet)] /\
    is_line line body /\
    parse_object body = Some r /\
    line = line_text r /\
    List.length r = 14%nat /\
    NoDup (map fst r) /\
    (forall k, In k (map fst r) <-> In k field_names).
Proof.
  split; [reflexivity|].
  apply (main_prints_one_record_line linux_x86_64 1 ["offset"] quiet).
  reflexivity.
Defined.

(** C2: in the emitted record, [statOffset] is [offsetof(struct stat,
    st_size)] and [statSize] is [sizeof(struct stat)], for the platform's
    declaration of [struct stat] (whose size fits [size_t]). *)
Theorem stat_fields_are_layout
  (p : Platform) (argc : Z) (argv : list string) (w : World) :
  supported p = true ->
  struct_ok (struct_stat p) = true ->
  sizeof (struct_stat p) < 2 ^ size_bits p ->
  exists line body r,
    emits p argc argv w line /\
    is_line line body /\
    parse_object body = Some r /\
    lookup "statOffset" r = offsetof (struct_stat p) "st_size" /\
    lookup "statSize" r = Some (sizeof (struct_stat p)).
Proof.
  intros H Hok Hfit. destruct (supported_inv p H) as (off & Hoff & _).
  destruct (run_reads p off argc argv w H Hoff) as (Hrun & Hline & Hread).
  destruct (offsetof_from_find _ _ _ _ Hoff) as [m Hm].
  destruct (offsetof_within _ _ _ _ Hok Hoff Hm) as [H0 H1].
  pose proof (find_member_size _ _ _ Hok Hm) as Hsz.
  exists (line_text (reported (argument_list p off))),
         ("{" ++ members_text (reported (argument_list p off))),
         (reported (argument_list p off)).
  split; [exact Hrun|].
  split; [exact Hline|].
  split; [exact Hread|].
  split.
  - rewrite Hoff.
    change (lookup "statOffset" (reported (argument_list p off)))
      with (Some (to_Z (of_Z (size_t p) off))).
    rewrite unsigned_of_Z; [reflexivity | reflexivity | cbn [width size_t]; lia].
  - change (lookup "statSize" (reported (argument_list p off)))
      with (Some (to_Z (of_Z (size_t p) (sizeof (struct_stat p))))).
    rewrite unsigned_of_Z; [reflexivity | reflexivity | cbn [width size_t]; lia].
Qed.

Lemma stat_fields_are_layout_witness :
  (supported linux_x86_64 = true /\
   struct_ok (struct_stat linux_x86_64) = true /\
   sizeof (struct_stat linux_x86_64) < 2 ^ size_bits linux_x86_64) /\
  exists line body r,
    emits linux_x86_64 1 ["offset"] quiet line /\
    is_line line body /\
    parse_object body = Some r /\
    lookup "statOffset" r = offsetof (struct_stat linux_x86_64) "st_size" /\
    lookup "statSize" r = Some (sizeof (struct_stat linux_x86_64)).
Proof.
  split; [repeat split; reflexivity|].
  apply (stat_fields_are_layout linux_x86_64 1 ["offset"] quiet); reflexivity.
Defined.

(** C3: the [MAP_FAILED] field is a signed 64-bit decimal integer whose low
    pointer-width bits are the bits of the platform's sentinel; when the
    sentinel is the all-ones pointer and the pointer is as wide as
    [long long] or is sign-extended, the field is -1. *)
Theorem map_failed_widened
  (p : Platform) (argc : Z) (argv : list string) (w : World) :
  supported p = true ->
  0 < ptr_bits p <= llong_bits ->
  0 <= MAP_FAILED p < 2 ^ ptr_bits p ->
  exists line body r v,
    emits p argc argv w line /\
    is_line line body /\
    parse_object body = Some r /\
    lookup "MAP_FAILED" r = Some v /\
    - 2 ^ 63 <= v < 2 ^ 63 /\
    (forall i, 0 <= i < ptr_bits p -> Z.testbit v i = Z.testbit (MAP_FAILED p) i) /\
    (MAP_FAILED p = 2 ^ ptr_bits p - 1 ->
     ptr_bits p = llong_bits \/ ptr_sign_extends p = true ->
     v = -1).
Proof.
  intros H Hb Hm. destruct (supported_inv p H) as (off & Hoff & _).
  destruct (run_reads p off argc argv w H Hoff) as (Hrun & Hline & Hread).
  exists (line_text (reported (argument_list p off))),
         ("{" ++ members_text (reported (argument_list p off))),
         (reported (argument_list p off)),
         (to_Z (cast_ptr_llong p (MAP_FAILED p))).
  split; [exact Hrun|].
  split; [exact Hline|].
  split; [exact Hread|].
  split; [reflexivity|].
  split; [apply llong_range|].
  split.
  - intros i Hi.
    assert (Hlow : to_Z (cast_ptr_llong p (MAP_FAILED p)) mod 2 ^ ptr_bits p
                   = MAP_FAILED p).
    { rewrite (cast_ptr_llong_low p _ Hb). unfold wrap. now apply Z.mod_small. }
    rewrite <- Hlow at 2. symmetry. apply Z.mod_pow2_bits_low. lia.
  - intros Hall Hext. rewrite Hall. now apply cast_ptr_llong_all_ones.
Qed.

Lemma map_failed_widened_witness :
  (supported linux_i386 = true /\
   0 < ptr_bits linux_i386 <= llong_bits /\
   0 <= MAP_FAILED linux_i386 < 2 ^ ptr_bits linux_i386) /\
  exists line body r v,
    emits linux_i386 1 ["offset"] quiet line /\
    is_line line body /\
    parse_object body = Some r /\
    lookup "MAP_FAILED" r = Some v /\
    - 2 ^ 63 <= v < 2 ^ 63 /\
    (forall i, 0 <= i < ptr_bits linux_i386 ->
               Z.testbit v i = Z.testbit (MAP_FAILED linux_i386) i) /\
    (MAP_FAILED linux_i386 = 2 ^ ptr_bits linux_i386 - 1 ->
     ptr_bits linux_i386 = llong_bits \/ ptr_sign_extends linux_i386 = true ->
     v = -1).
Proof.
  split; [split; [reflexivity | split; vm_compute; split; congruence]|].
  apply (map_failed_widened linux_i386 1 ["offset"] quiet).
  - reflexivity.
  - vm_compute; split; congruence.
  - vm_compute; split; congruence.
Defined.

(** C4: the argument vector is not consulted; runs that differ only in their
    arguments do the same thing, and any run does what the run without
    arguments does. *)
Theorem main_ignores_arguments
  (p : Platform) (w : World) (argc argc' : Z) (argv argv' : list string) :
  main p argc argv w = main p argc' argv' w /\
  main p argc argv w = main p 0 [] w /\
  output p argc argv w = output p argc' argv' w.
Proof. split; [reflexivity | split; reflexivity]. Qed.

Lemma skipn_own_trace (w : World) (e : event) :
  skipn (List.length (trace w)) (trace w ++ [e])%list = [e].
Proof. rewrite skipn_app, skipn_all, Nat.sub_diag. reflexivity. Qed.

(** C5: on one platform the text handed to standard output is the same for
    every run, whatever the arguments, the earlier history of the process
    environment or the state of the stream. *)
Theorem main_output_deterministic
  (p : Platform) (argc1 argc2 : Z) (argv1 argv2 : list string) (w1 w2 : World) :
  output_text p argc1 argv1 w1 = output_text p argc2 argv2 w2.
Proof.
  unfold output_text, output, main, printf.
  destruct (arguments p) as [args|]; [|reflexivity].
  destruct (sprintf p format args) as [text|]; [|reflexivity].
  cbn [trace option_map]. now rewrite !skipn_own_trace.
Qed.




Example stdout_failures_on_linux_x86_64 :
  option_map fst (printf linux_x86_64 format (argument_list linux_x86_64 48) quiet)
  = Some 245 /\
  option_map fst (printf linux_x86_64 format (argument_list linux_x86_64 48) closed_stdout)
  = Some 245 /\
  option_map fst (printf linux_x86_64 format (argument_list linux_x86_64 48) hung_up_terminal)
  = Some (-1) /\
  option_map fst (run_process linux_x86_64 1 ["offset"] closed_stdout)
  = Some (Exited 0) /\
  option_map fst (run_process linux_x86_64 1 ["offset"] hung_up_terminal)
  = Some (Exited 0) /\
  option_map fst (run_process linux_x86_64 1 ["offset"] broken_pipe)
  = Some (Killed SIGPIPE) /\
  option_map fst (run_process linux_x86_64 1 ["offset"] broken_pipe_ignored)
  = Some (Exited 0).
Proof. repeat split; vm_compute; reflexivity. Qed.




(** C7: in the emitted record, [statOffset] plus the size of the [st_size]
    member is at most [statSize]. *)
Theorem stat_offset_within_size
  (p : Platform) (argc : Z) (argv : list string) (w : World) :
  supported p = true ->
  struct_ok (struct_stat p) = true ->
  sizeof (struct_stat p) < 2 ^ size_bits p ->
  exists line body r m o s,
    emits p argc argv w line /\
    is_line line body /\
    parse_object body = Some r /\
    find_member (struct_stat p) "st_size" = Some m /\
    lookup "statOffset" r = Some o /\
    lookup "statSize" r = Some s /\
    o + m_size m <= s.
Proof.
  intros H Hok Hfit. destruct (supported_inv p H) as (off & Hoff & _).
  destruct (run_reads p off argc argv w H Hoff) as (Hrun & Hline & Hread).
  destruct (offsetof_from_find _ _ _ _ Hoff) as [m Hm].
  destruct (offsetof_within _ _ _ _ Hok Hoff Hm) as [H0 H1].
  pose proof (find_member_size _ _ _ Hok Hm) as Hsz.
  exists (line_text (reported (argument_list p off))),
         ("{" ++ members_text (reported (argument_list p off))),
         (reported (argument_list p off)),
         m, off, (sizeof (struct_stat p)).
  split; [exact Hrun|].
  split; [exact Hline|].
  split; [exact Hread|].
  split; [exact Hm|].
  split.
  { change (lookup "statOffset" (reported (argument_list p off)))
      with (Some (to_Z (of_Z (size_t p) off))).
    rewrite unsigned_of_Z; [reflexivity | reflexivity | cbn [width size_t]; lia]. }
  split; [|exact H1].
  change (lookup "statSize" (reported (argument_list p off)))
    with (Some (to_Z (of_Z (size_t p) (sizeof (struct_stat p))))).
  rewrite unsigned_of_Z; [reflexivity | reflexivity | cbn [width size_t]; lia].
Qed.

Lemma stat_offset_within_size_witness :
  (supported linux_i386 = true /\
   struct_ok (struct_stat linux_i386) = true /\
   sizeof (struct_stat linux_i386) < 2 ^ size_bits linux_i386) /\
  exists line body r m o s,
    emits linux_i386 1 ["offset"] quiet line /\
    is_line line body /\
    parse_object body = Some r /\
    find_member (struct_stat linux_i386) "st_size" = Some m /\
    lookup "statOffset" r = Some o /\
    lookup "statSize" r = Some s /\
    o + m_size m <= s.
Proof.
  split; [repeat split; reflexivity|].
  apply (stat_offset_within_size linux_i386 1 ["offset"] quiet); reflexivity.
Defined.

Lemma int_of_Z_small (p : Platform) (v : Z) :
  16 <= int_bits p -> - 2 ^ 15 <= v < 2 ^ 15 -> to_Z (of_Z (int_t p) v) = v.
Proof.
  intros Hb Hv. apply signed_of_Z; cbn [is_signed width int_t]; [reflexivity | lia |].
  assert (2 ^ 15 <= 2 ^ (int_bits p - 1)) by (apply Z.pow_le_mono_r; lia).
  lia.
Qed.

(** C8: on a platform whose headers give the usual values (access modes 0, 1
    and 2, protections 1 and 2, shared mapping 1, the all-ones failure
    pointer, as wide as [long long] or sign-extended) the emitted record
    holds exactly those values, [MAP_FAILED] as -1. *)
Theorem common_posix_values
  (p : Platform) (argc : Z) (argv : list string) (w : World) :
  supported p = true ->
  16 <= int_bits p ->
  0 < ptr_bits p <= llong_bits ->
  ptr_bits p = llong_bits \/ ptr_sign_extends p = true ->
  O_RDONLY p = 0 -> O_WRONLY p = 1 -> O_RDWR p = 2 ->
  PROT_READ p = 1 -> PROT_WRITE p = 2 ->
  MAP_SHARED p = 1 ->
  MAP_FAILED p = 2 ^ ptr_bits p - 1 ->
  exists line body r,
    emits p argc argv w line /\
    is_line line body /\
    parse_object body = Some r /\
    lookup "O_RDONLY" r = Some 0 /\
    lookup "O_WRONLY" r = Some 1 /\
    lookup "O_RDWR" r = Some 2 /\
    lookup "PROT_READ" r = Some 1 /\
    lookup "PROT_WRITE" r = Some 2 /\
    lookup "MAP_SHARED" r = Some 1 /\
    lookup "MAP_FAILED" r = Some (-1).
Proof.
  intros H Hint Hptr Hext E0 E1 E2 E3 E4 E5 E6.
  destruct (supported_inv p H) as (off & Hoff & _).
  destruct (run_reads p off argc argv w H Hoff) as (Hrun & Hline & Hread).
  exists (line_text (reported (argument_list p off))),
         ("{" ++ members_text (reported (argument_list p off))),
         (reported (argument_list p off)).
  split; [exact Hrun|].
  split; [exact Hline|].
  split; [exact Hread|].
  cbn [lookup reported argument_list combine map field_names String.eqb Ascii.eqb Bool.eqb].
  rewrite E0, E1, E2, E3, E4, E5.
  rewrite !int_of_Z_small by (assumption || (change (2 ^ 15) with 32768; lia)).
  rewrite E6, (cast_ptr_llong_all_ones p Hptr Hext).
  repeat split; reflexivity.
Qed.

Lemma common_posix_values_witness :
  (supported linux_x86_64 = true /\
   16 <= int_bits linux_x86_64 /\
   0 < ptr_bits linux_x86_64 <= llong_bits /\
   (ptr_bits linux_x86_64 = llong_bits \/ ptr_sign_extends linux_x86_64 = true) /\
   O_RDONLY linux_x86_64 = 0 /\ O_WRONLY linux_x86_64 = 1 /\
   O_RDWR linux_x86_64 = 2 /\
   PROT_READ linux_x86_64 = 1 /\ PROT_WRITE linux_x86_64 = 2 /\
   MAP_SHARED linux_x86_64 = 1 /\
   MAP_FAILED linux_x86_64 = 2 ^ ptr_bits linux_x86_64 - 1) /\
  exists line body r,
    emits linux_x86_64 1 ["offset"] quiet line /\
    is_line line body /\
    parse_object body = Some r /\
    lookup "O_RDONLY" r = Some 0 /\
    lookup "O_WRONLY" r = Some 1 /\
    lookup "O_RDWR" r = Some 2 /\
    lookup "PROT_READ" r = Some 1 /\
    lookup "PROT_WRITE" r = Some 2 /\
    lookup "MAP_SHARED" r = Some 1 /\
    lookup "MAP_FAILED" r = Some (-1).
Proof.
  split.
  - split; [reflexivity|].
    split; [vm_compute; congruence|].
    split; [vm_compute; split; congruence|].
    split; [left; reflexivity|].
    repeat split; reflexivity.
  - apply (common_posix_values linux_x86_64 1 ["offset"] quiet);
      try reflexivity; [vm_compute; congruence | vm_compute; split; congruence
                       | left; reflexivity].
Defined.

(** C9: the emitted line is a JSON object (braces, double-quoted keys, colon,
    integer values, comma-separated members) whose keys come in the order
    of the format string, followed by one line feed, the only one in the
    text. *)
Theorem line_is_json_object_in_order
  (p : Platform) (argc : Z) (argv : list string) (w : World) :
  supported p = true ->
  exists line body r,
    emits p argc argv w line /\
    line = body ++ newline /\
    no_newline body = true /\
    parse_object body = Some r /\
    map fst r = field_names.
Proof.
  intros H. destruct (supported_inv p H) as (off & Hoff & _).
  destruct (run_reads p off argc argv w H Hoff) as (Hrun & [Hline Hnl] & Hread).
  exists (line_text (reported (argument_list p off))),
         ("{" ++ members_text (reported (argument_list p off))),
         (reported (argument_list p off)).
  split; [exact Hrun|].
  split; [exact Hline|].
  split; [exact Hnl|].
  split; [exact Hread | reflexivity].
Qed.

Lemma line_is_json_object_in_order_witness :
  supported linux_i386 = true /\
  exists line body r,
    emits linux_i386 1 ["offset"] quiet line /\
    line = body ++ newline /\
    no_newline body = true /\
    parse_object body = Some r /\
    map fst r = field_names.
Proof.
  split; [reflexivity|].
  apply (line_is_json_object_in_order linux_i386 1 ["offset"] quiet).
  reflexivity.
Defined.




(** * Further properties of the call *)

Lemma int_of_Z_in_range (p : Platform) (v : Z) :
  0 < int_bits p -> in_int_range p v = true -> to_Z (of_Z (int_t p) v) = v.
Proof.
  intros Hb Hv. unfold in_int_range in Hv.
  apply andb_true_iff in Hv as [Hlo Hhi].
  apply Z.leb_le in Hlo. apply Z.ltb_lt in Hhi.
  apply signed_of_Z; cbn [is_signed width int_t]; [reflexivity | assumption | lia].
Qed.

(** X2: the record pairs every label with the value of the expression of
    the same name: the two layout values of [struct stat], each of the eleven
    [int] macros, and the converted [MAP_FAILED], in the order of the call. *)
Theorem record_pairs_labels_with_values
  (p : Platform) (argc : Z) (argv : list string) (w : World) :
  supported p = true ->
  struct_ok (struct_stat p) = true ->
  sizeof (struct_stat p) < 2 ^ size_bits p ->
  0 < int_bits p ->
  forallb (in_int_range p) (int_macros p) = true ->
  exists line body off,
    emits p argc argv w line /\
    is_line line body /\
    offsetof (struct_stat p) "st_size" = Some off /\
    parse_object body =
    Some [ ("statOffset", off);
           ("statSize", sizeof (struct_stat p));
           ("O_RDONLY", O_RDONLY p);
           ("O_WRONLY", O_WRONLY p);
           ("O_RDWR", O_RDWR p);
           ("PROT_READ", PROT_READ p);
           ("PROT_WRITE", PROT_WRITE p);
           ("MADV_NORMAL", MADV_NORMAL p);
           ("MADV_RANDOM", MADV_RANDOM p);
           ("MADV_SEQUENTIAL", MADV_SEQUENTIAL p);
           ("MADV_WILLNEED", MADV_WILLNEED p);
           ("MADV_DONTNEED", MADV_DONTNEED p);
           ("MAP_FAILED", to_Z (cast_ptr_llong p (MAP_FAILED p)));
           ("MAP_SHARED", MAP_SHARED p) ].
Proof.
  intros H Hok Hfit Hint Hmac. destruct (supported_inv p H) as (off & Hoff & _).
  destruct (run_reads p off argc argv w H Hoff) as (Hrun & Hline & Hread).
  destruct (offsetof_from_find _ _ _ _ Hoff) as [m Hm].
  destruct (offsetof_within _ _ _ _ Hok Hoff Hm) as [H0 H1].
  pose proof (find_member_size _ _ _ Hok Hm) as Hsz.
  exists (line_text (reported (argument_list p off))),
         ("{" ++ members_text (reported (argument_list p off))), off.
  split; [exact Hrun|].
  split; [exact Hline|].
  split; [exact Hoff|].
  rewrite Hread. f_equal.
  cbn [forallb int_macros] in Hmac.
  repeat (apply andb_true_iff in Hmac as [? Hmac]).
  unfold reported, argument_list. cbn [combine map field_names].
  rewrite !int_of_Z_in_range by assumption.
  rewrite !unsigned_of_Z by (reflexivity || (cbn [width size_t]; lia)).
  reflexivity.
Qed.

Lemma record_pairs_labels_with_values_witness :
  (supported linux_i386 = true /\
   struct_ok (struct_stat linux_i386) = true /\
   sizeof (struct_stat linux_i386) < 2 ^ size_bits linux_i386 /\
   0 < int_bits linux_i386 /\
   forallb (in_int_range linux_i386) (int_macros linux_i386) = true) /\
  exists line body off,
    emits linux_i386 1 ["offset"] quiet line /\
    is_line line body /\
    offsetof (struct_stat linux_i386) "st_size" = Some off /\
    parse_object body =
    Some [ ("statOffset", off);
           ("statSize", sizeof (struct_stat linux_i386));
           ("O_RDONLY", O_RDONLY linux_i386);
           ("O_WRONLY", O_WRONLY linux_i386);
           ("O_RDWR", O_RDWR linux_i386);
           ("PROT_READ", PROT_READ linux_i386);
           ("PROT_WRITE", PROT_WRITE linux_i386);
           ("MADV_NORMAL", MADV_NORMAL linux_i386);
           ("MADV_RANDOM", MADV_RANDOM linux_i386);
           ("MADV_SEQUENTIAL", MADV_SEQUENTIAL linux_i386);
           ("MADV_WILLNEED", MADV_WILLNEED linux_i386);
           ("MADV_DONTNEED", MADV_DONTNEED linux_i386);
           ("MAP_FAILED", to_Z (cast_ptr_llong linux_i386 (MAP_FAILED linux_i386)));
           ("MAP_SHARED", MAP_SHARED linux_i386) ].
Proof.
  split; [repeat split; reflexivity|].
  apply (record_pairs_labels_with_values linux_i386 1 ["offset"] quiet);
    reflexivity.
Defined.

Lemma cast_ptr_llong_exact (p : Platform) (addr : Z) :
  0 < ptr_bits p <= llong_bits ->
  to_Z (cast_ptr_llong p addr) =
  if ptr_sign_extends p || (ptr_bits p =? llong_bits)
  then signed (ptr_bits p) (wrap (ptr_bits p) addr)
  else wrap (ptr_bits p) addr.
Proof.
  intros Hb. unfold cast_ptr_llong. cbv zeta.
  assert (Hr : 0 <= wrap (ptr_bits p) addr < 2 ^ ptr_bits p).
  { unfold wrap. apply Z.mod_pos_bound. apply Z.pow_pos_nonneg; lia. }
  pose proof (signed_range (ptr_bits p) _ (proj1 Hb) Hr) as Hs.
  assert (Hm : 2 ^ (ptr_bits p - 1) <= 2 ^ (llong_bits - 1))
    by (apply Z.pow_le_mono_r; unfold llong_bits in *; lia).
  destruct (ptr_sign_extends p); cbn [orb].
  - apply signed_of_Z; [reflexivity | reflexivity | cbn [width llong_t]; lia].
  - destruct (Z.eqb_spec (ptr_bits p) llong_bits) as [E|E].
    + unfold to_Z, of_Z. cbn [ty pat is_signed width llong_t].
      rewrite E in *. unfold wrap at 1. rewrite Z.mod_small by exact Hr.
      reflexivity.
    + apply signed_of_Z; [reflexivity | reflexivity |].
      cbn [width llong_t].
      assert (2 ^ ptr_bits p <= 2 ^ (llong_bits - 1))
        by (apply Z.pow_le_mono_r; lia).
      assert (0 < 2 ^ (llong_bits - 1)) by reflexivity.
      lia.
Qed.

(** X3: what the cast of line 22 prints.  A sentinel that is sign-extended,
    or as wide as [long long], is printed as the signed reading of its
    address bits; a narrower one that is zero-extended is printed as the
    address itself, which is never negative. *)
Theorem map_failed_field_value
  (p : Platform) (argc : Z) (argv : list string) (w : World) :
  supported p = true ->
  0 < ptr_bits p <= llong_bits ->
  0 <= MAP_FAILED p < 2 ^ ptr_bits p ->
  exists line body r v,
    emits p argc argv w line /\
    is_line line body /\
    parse_object body = Some r /\
    lookup "MAP_FAILED" r = Some v /\
    v = (if ptr_sign_extends p || (ptr_bits p =? llong_bits)
         then signed (ptr_bits p) (MAP_FAILED p)
         else MAP_FAILED p) /\
    (ptr_sign_extends p = false -> ptr_bits p < llong_bits -> 0 <= v).
Proof.
  intros H Hb Hm. destruct (supported_inv p H) as (off & Hoff & _).
  destruct (run_reads p off argc argv w H Hoff) as (Hrun & Hline & Hread).
  assert (Hwrap : wrap (ptr_bits p) (MAP_FAILED p) = MAP_FAILED p)
    by (unfold wrap; now apply Z.mod_small).
  pose proof (cast_ptr_llong_exact p (MAP_FAILED p) Hb) as Hv.
  rewrite Hwrap in Hv.
  exists (line_text (reported (argument_list p off))),
         ("{" ++ members_text (reported (argument_list p off))),
         (reported (argument_list p off)),
         (to_Z (cast_ptr_llong p (MAP_FAILED p))).
  split; [exact Hrun|].
  split; [exact Hline|].
  split; [exact Hread|].
  split; [reflexivity|].
  split; [exact Hv|].
  intros Hz Hlt. rewrite Hv, Hz. cbn [orb].
  destruct (Z.eqb_spec (ptr_bits p) llong_bits); lia.
Qed.

Lemma map_failed_field_value_witness :
  (supported linux_i386_zext = true /\
   0 < ptr_bits linux_i386_zext <= llong_bits /\
   0 <= MAP_FAILED linux_i386_zext < 2 ^ ptr_bits linux_i386_zext) /\
  exists line body r v,
    emits linux_i386_zext 1 ["offset"] quiet line /\
    is_line line body /\
    parse_object body = Some r /\
    lookup "MAP_FAILED" r = Some v /\
    v = (if ptr_sign_extends linux_i386_zext
            || (ptr_bits linux_i386_zext =? llong_bits)
         then signed (ptr_bits linux_i386_zext) (MAP_FAILED linux_i386_zext)
         else MAP_FAILED linux_i386_zext) /\
    (ptr_sign_extends linux_i386_zext = false ->
     ptr_bits linux_i386_zext < llong_bits -> 0 <= v).
Proof.
  split; [split; [reflexivity | split; vm_compute; split; congruence]|].
  apply (map_failed_field_value linux_i386_zext 1 ["offset"] quiet).
  - reflexivity.
  - vm_compute; split; congruence.
  - vm_compute; split; congruence.
Defined.

(** X4: the line loses nothing.  Two runs, on whatever two supported
    platforms, that hand standard output the same text pass [printf] the
    same fourteen values. *)
Theorem line_determines_values
  (p1 p2 : Platform) (args1 args2 : list cval)
  (argc1 argc2 : Z) (argv1 argv2 : list string) (w1 w2 : World) :
  supported p1 = true ->
  supported p2 = true ->
  arguments p1 = Some args1 ->
  arguments p2 = Some args2 ->
  output_text p1 argc1 argv1 w1 = output_text p2 argc2 argv2 w2 ->
  map to_Z args1 = map to_Z args2.
Proof.
  intros H1 H2 Ha1 Ha2 Hout.
  pose proof (emits_output _ _ _ _ _ (main_run p1 args1 argc1 argv1 w1 H1 Ha1)) as E1.
  pose proof (emits_output _ _ _ _ _ (main_run p2 args2 argc2 argv2 w2 H2 Ha2)) as E2.
  unfold output_text in Hout. rewrite E1, E2 in Hout.
  cbn [option_map map event_data] in Hout.
  assert (Hline : line_text (reported args1) = line_text (reported args2))
    by congruence.
  assert (Hrec : reported args1 = reported args2).
  { assert (Hp : forall q args, arguments q = Some args ->
                   parse_object (line_text (reported args)) = Some (reported args)).
    { intros q0 args Ha.
      change (line_text (reported args))
        with ("{" ++ members_text (reported args) ++ newline).
      apply parse_object_text; [| rewrite (reported_keys q0 args Ha); reflexivity
                                | reflexivity].
      intros E. pose proof (reported_keys q0 args Ha) as Hk.
      rewrite E in Hk. discriminate Hk. }
    pose proof (Hp p1 args1 Ha1) as P1. pose proof (Hp p2 args2 Ha2) as P2.
    rewrite Hline in P1. rewrite P1 in P2. now injection P2. }
  unfold arguments in Ha1, Ha2.
  destruct (offsetof (struct_stat p1) "st_size"); [|discriminate].
  destruct (offsetof (struct_stat p2) "st_size"); [|discriminate].
  injection Ha1 as <-. injection Ha2 as <-.
  apply (f_equal (map snd)) in Hrec. exact Hrec.
Qed.

Lemma line_determines_values_witness :
  (supported linux_x86_64 = true /\
   supported linux_x86_64_ilp64 = true /\
   arguments linux_x86_64 = Some (argument_list linux_x86_64 48) /\
   arguments linux_x86_64_ilp64 = Some (argument_list linux_x86_64_ilp64 48) /\
   output_text linux_x86_64 1 ["offset"] quiet
   = output_text linux_x86_64_ilp64 2 ["offset"; "-q"] closed_stdout) /\
  argument_list linux_x86_64 48 <> argument_list linux_x86_64_ilp64 48 /\
  map to_Z (argument_list linux_x86_64 48)
  = map to_Z (argument_list linux_x86_64_ilp64 48).
Proof.
  split; [repeat split; reflexivity|].
  split; [vm_compute; discriminate|].
  apply (line_determines_values linux_x86_64 linux_x86_64_ilp64 _ _
           1 2 ["offset"] ["offset"; "-q"] quiet closed_stdout); reflexivity.
Defined.

Lemma all_printable_append (a b : string) :
  all_printable (a ++ b) = all_printable a && all_printable b.
Proof.
  induction a as [|c a IH]; simpl; [reflexivity|].
  rewrite IH. now rewrite andb_assoc.
Qed.

Lemma all_digits_printable (s : string) : all_digits s = true -> all_printable s = true.
Proof.
  induction s as [|c s IH]; intros H; [reflexivity|].
  simpl in H. apply andb_true_iff in H as [Hc Hs]. simpl.
  rewrite (IH Hs), andb_true_r.
  unfold is_digit in Hc. apply andb_true_iff in Hc as [Hlo Hhi].
  apply N.leb_le in Hlo. apply N.leb_le in Hhi.
  unfold printable. apply andb_true_iff. split; apply N.leb_le; lia.
Qed.

Lemma string_of_Z_printable (v : Z) : all_printable (string_of_Z v) = true.
Proof.
  unfold string_of_Z.
  destruct (v <? 0).
  - destruct (string_of_N_spec (Z.to_N (- v))) as (c & ds & Hs & Hall & _).
    rewrite Hs. change (all_printable (String "-" (String c ds)))
      with (all_printable (String c ds)). now apply all_digits_printable.
  - destruct (string_of_N_spec (Z.to_N v)) as (c & ds & Hs & Hall & _).
    rewrite Hs. now apply all_digits_printable.
Qed.

Lemma members_text_printable (r : record) :
  forallb all_printable (map fst r) = true -> all_printable (members_text r) = true.
Proof.
  induction r as [|[k v] r IH]; intros H; [reflexivity|].
  simpl in H. apply andb_true_iff in H as [Hk Hr].
  cbn [members_text]. unfold q, dquote.
  rewrite !all_printable_append.
  rewrite Hk, string_of_Z_printable.
  destruct r as [|kv r]; [reflexivity|].
  rewrite all_printable_append, (IH Hr). reflexivity.
Qed.

(** X6: apart from the line feed that ends it, the text of a run is
    printable ASCII throughout: the platform's values enter it only as
    decimal digits and minus signs. *)
Theorem line_is_printable_ascii
  (p : Platform) (argc : Z) (argv : list string) (w : World) :
  supported p = true ->
  exists line body,
    emits p argc argv w line /\
    line = body ++ newline /\
    all_printable body = true.
Proof.
  intros H. destruct (supported_inv p H) as (off & Hoff & _).
  destruct (run_reads p off argc argv w H Hoff) as (Hrun & [Hline _] & _).
  exists (line_text (reported (argument_list p off))),
         ("{" ++ members_text (reported (argument_list p off))).
  split; [exact Hrun|].
  split; [exact Hline|].
  change (all_printable ("{" ++ members_text (reported (argument_list p off))))
    with (all_printable (members_text (reported (argument_list p off)))).
  apply members_text_printable. reflexivity.
Qed.

Lemma line_is_printable_ascii_witness :
  supported linux_i386_zext = true /\
  exists line body,
    emits linux_i386_zext 1 ["offset"] closed_stdout line /\
    line = body ++ newline /\
    all_printable body = true.
Proof.
  split; [reflexivity|].
  apply (line_is_printable_ascii linux_i386_zext 1 ["offset"] closed_stdout).
  reflexivity.
Defined.
